(** * FridgePal: the ingredient normaliser and the recipe matcher of [app.py]

    A shallow embedding of the pure core of [app.py]: [singularize],
    [normalize], [match_recipes] and the scoring and sorting block of the
    [index] route, together with the two tables [SYNONYMS] and [recipes].

    Conventions of the model.
    - A Python [str] is a [string]; a character is a code point below 256.
      [str.lower] and [str.strip] are given the meaning Python gives them on
      that range (ASCII and Latin-1 letters; the ASCII white space, the four
      separators 0x1c-0x1f, NEL and NBSP).
    - A [dict] is an association list in insertion order; assignment
      [d[k] = v] keeps the position of an existing key and appends a new one.
    - A [set] is a duplicate-free list whose arrangement is left open: the
      program only ever asks it for membership.
    - Coverage is the exact quotient [have / total] in [Q].  Python rounds the
      quotient to a binary64 float; rounding is monotone, and the quotients
      of the catalogue (denominators 3, 4 and 5) round to pairwise distinct
      floats, so order and ties are those of [Q]. *)

From Stdlib Require Import List String Ascii Bool Arith Lia.
From Stdlib Require Import ZArith QArith Lqa Permutation Sorted.
Import ListNotations.

Local Close Scope Q_scope.
Local Close Scope Z_scope.
Local Open Scope string_scope.
Local Open Scope list_scope.
Local Open Scope nat_scope.

(* ================================================================== *)
(** ** Python string primitives *)

Module PyStr.

(** Character-wise map, the shape of [str.lower] and of [str.replace] with
    one-character arguments. *)
Fixpoint map (f : ascii -> ascii) (s : string) : string :=
  match s with
  | EmptyString => EmptyString
  | String c s' => String (f c) (map f s')
  end.

Definition code (c : ascii) : nat := nat_of_ascii c.

(** [c.lower()] on code points below 256: A-Z, and the Latin-1 capitals
    0xC0-0xDE except the multiplication sign 0xD7. *)
Definition lower_char (c : ascii) : ascii :=
  let n := code c in
  if ((65 <=? n) && (n <=? 90)) ||
     ((192 <=? n) && (n <=? 222) && negb (n =? 215))
  then ascii_of_nat (n + 32) else c.

Definition lower (s : string) : string := map lower_char s.

(** [c.isspace()] on code points below 256. *)
Definition isspace (c : ascii) : bool :=
  let n := code c in
  ((9 <=? n) && (n <=? 13)) || ((28 <=? n) && (n <=? 32)) ||
  (n =? 133) || (n =? 160).

Fixpoint lstrip (s : string) : string :=
  match s with
  | EmptyString => EmptyString
  | String c s' => if isspace c then lstrip s' else s
  end.

Fixpoint rstrip (s : string) : string :=
  match s with
  | EmptyString => EmptyString
  | String c s' =>
      match rstrip s' with
      | EmptyString => if isspace c then EmptyString else String c EmptyString
      | r => String c r
      end
  end.

(** [s.strip()] *)
Definition strip (s : string) : string := rstrip (lstrip s).

(** [s.replace(old, new)] for one-character [old] and [new]. *)
Definition replace (old new : ascii) (s : string) : string :=
  map (fun c => if Ascii.eqb c old then new else c) s.

(** [s.endswith(suffix)] *)
Definition endswith (s suffix : string) : bool :=
  (length suffix <=? length s) &&
  (substring (length s - length suffix) (length suffix) s =? suffix)%string.

(** [s[:-k]] for [k > 0]: all but the last [k] characters, empty when the
    string is shorter than [k]. *)
Definition drop_last (k : nat) (s : string) : string :=
  substring 0 (length s - k) s.

End PyStr.

(* ================================================================== *)
(** ** Dictionaries in insertion order *)

Module PyDict.

Section Dict.
Context {V : Type}.

Definition dict := list (string * V).

(** [d.get(k)]: the value of the entry with key [k], if any. *)
Fixpoint lookup (d : dict) (k : string) : option V :=
  match d with
  | [] => None
  | (k', v) :: d' => if (k' =? k)%string then Some v else lookup d' k
  end.

(** [d.get(k, default)] *)
Definition get (d : dict) (k : string) (default : V) : V :=
  match lookup d k with
  | Some v => v
  | None => default
  end.

(** [d[k] = v] *)
Fixpoint set (d : dict) (k : string) (v : V) : dict :=
  match d with
  | [] => [(k, v)]
  | (k', v') :: d' => if (k' =? k)%string then (k', v) :: d' else (k', v') :: set d' k v
  end.

Definition keys (d : dict) : list string := List.map fst d.
End Dict.

Arguments dict V : clear implicits.

End PyDict.

(* ================================================================== *)
(** ** Normalisation (plurals + synonyms) *)

Definition SYNONYMS : PyDict.dict string :=
  [ ("tomatoes", "tomato"); ("bell pepper", "pepper"); ("peppers", "pepper");
    ("yoghurt", "yogurt"); ("buttermilk", "milk"); ("buns", "bun");
    ("tortillas", "tortilla"); ("breads", "bread"); ("eggs", "egg");
    ("onions", "onion"); ("garlics", "garlic"); ("berries", "berry");
    ("strawberries", "strawberry"); ("tomatos", "tomato");
    ("oliveoil", "olive oil"); ("olive-oil", "olive oil") ].

Definition singularize (w : string) : string :=
  if PyStr.endswith w "ies" && (3 <? length w) then (PyStr.drop_last 3 w ++ "y")%string
  else if PyStr.endswith w "oes" && (3 <? length w) then PyStr.drop_last 2 w
  else if PyStr.endswith w "es" && (2 <? length w) then PyStr.drop_last 2 w
  else if PyStr.endswith w "s" && (1 <? length w) then PyStr.drop_last 1 w
  else w.

(** The suffix rules of the normaliser as the specification words them:
    a rule applies when the word ends with the suffix and is long enough,
    and the first rule that applies decides the result. *)
Definition rule_ies (w : string) : Prop :=
  (exists p, w = (p ++ "ies")%string) /\ 3 < length w.
Definition rule_oes (w : string) : Prop :=
  (exists p, w = (p ++ "oes")%string) /\ 3 < length w.
Definition rule_es (w : string) : Prop :=
  (exists p, w = (p ++ "es")%string) /\ 2 < length w.
Definition rule_s (w : string) : Prop :=
  (exists p, w = (p ++ "s")%string) /\ 1 < length w.

Inductive singular_form (w : string) : string -> Prop :=
| by_ies p :
    w = (p ++ "ies")%string -> 3 < length w ->
    singular_form w (p ++ "y")
| by_oes p :
    ~ rule_ies w ->
    w = (p ++ "oes")%string -> 3 < length w ->
    singular_form w (p ++ "o")
| by_es p :
    ~ rule_ies w -> ~ rule_oes w ->
    w = (p ++ "es")%string -> 2 < length w ->
    singular_form w p
| by_s p :
    ~ rule_ies w -> ~ rule_oes w -> ~ rule_es w ->
    w = (p ++ "s")%string -> 1 < length w ->
    singular_form w p
| unchanged :
    ~ rule_ies w -> ~ rule_oes w -> ~ rule_es w -> ~ rule_s w ->
    singular_form w w.

(** [word or ""]: [None] and the empty string are both falsy. *)
Definition or_empty (word : option string) : string :=
  match word with
  | Some s => s
  | None => ""
  end.

(** The first two statements of [normalize]: case folding, trimming and
    separator unification. *)
Definition clean (word : option string) : string :=
  let w := PyStr.strip (PyStr.lower (or_empty word)) in
  PyStr.replace "-" " " (PyStr.replace "_" " " w).

Definition normalize (word : option string) : string :=
  let w := clean word in
  let w := PyDict.get SYNONYMS w w in
  let w := PyDict.get SYNONYMS (singularize w) (singularize w) in
  w.

(** How a call ends: with a value, or with an exception (its class name). *)
Inductive outcome (A : Type) : Type :=
| Returned (a : A)
| Raised (exn : string).

Arguments Returned {A} a.
Arguments Raised {A} exn.

(** [a or b] where [a] is a [str] or [None]: [a] when it is truthy. *)
Definition py_or (a b : option string) : option string :=
  match a with
  | Some (String _ _) => a
  | _ => b
  end.

(** Looking up a [str] method on a value: [None] has no [lower]. *)
Definition str_receiver (v : option string) : outcome string :=
  match v with
  | Some s => Returned s
  | None => Raised "AttributeError"
  end.

(** [normalize] once more, with the one step that could raise written out:
    the method call [.lower()] on [(word or "")].  The later steps are
    methods of a [str], slices and [dict.get], which do not raise. *)
Definition normalize_call (word : option string) : outcome string :=
  match str_receiver (py_or word (Some "")) with
  | Raised exn => Raised exn
  | Returned w0 =>
      let w := PyStr.strip (PyStr.lower w0) in
      let w := PyStr.replace "-" " " (PyStr.replace "_" " " w) in
      let w := PyDict.get SYNONYMS w w in
      let w := PyDict.get SYNONYMS (singularize w) (singularize w) in
      Returned w
  end.

(** [normalize] applied to a [str]. *)
Definition normalize_str (s : string) : string := normalize (Some s).

(** A string that the first two statements of [normalize] can no longer
    change except by trimming: lower case, no underscore, no hyphen. *)
Definition folded (s : string) : Prop :=
  PyStr.lower s = s /\
  PyStr.replace "_" " " s = s /\
  PyStr.replace "-" " " s = s.

(* ================================================================== *)
(** ** Sets of strings *)

Module PySet.

(** The elements of a [set], in some arrangement without repetition. *)
Definition t := list string.

(** [x in s] *)
Definition mem (x : string) (s : t) : bool := existsb (String.eqb x) s.

(** [s.add(x)] *)
Definition add (x : string) (s : t) : t := if mem x s then s else s ++ [x].

(** [set(xs)]: one arrangement of the distinct elements of [xs]. *)
Definition of_list (xs : list string) : t :=
  fold_left (fun s x => add x s) xs [].

(** [s] is an arrangement that [set(xs)] may take: Python fixes the elements
    of the set, not the order in which it stores them. *)
Definition arranges (xs : list string) (s : t) : Prop :=
  NoDup s /\ forall x, In x s <-> In x xs.

End PySet.

(* ================================================================== *)
(** ** Hardcoded recipes *)

Definition recipes : PyDict.dict (list string) :=
  [ ("Omelette", ["eggs"; "milk"; "cheese"; "butter"]);
    ("Tomato Pasta", ["tomato"; "pasta"; "olive oil"; "garlic"]);
    ("French Toast", ["bread"; "eggs"; "milk"; "syrup"]);
    ("Salad", ["lettuce"; "tomato"; "cucumber"; "olive oil"]);
    ("Grilled Cheese", ["bread"; "cheese"; "butter"]);
    ("Pancakes", ["flour"; "eggs"; "milk"; "syrup"]);
    ("Smoothie", ["banana"; "milk"; "yogurt"; "berries"]);
    ("Fried Rice", ["rice"; "eggs"; "soy sauce"; "carrot"; "peas"]);
    ("Tacos", ["tortilla"; "beef"; "cheese"; "lettuce"; "tomato"]);
    ("Guacamole", ["avocado"; "tomato"; "onion"; "lime"]);
    ("Pizza", ["dough"; "tomato"; "cheese"; "olive oil"]);
    ("Sandwich", ["bread"; "cheese"; "lettuce"; "tomato"]);
    ("Chicken Soup", ["chicken"; "carrot"; "celery"; "onion"]);
    ("Stir Fry", ["chicken"; "broccoli"; "soy sauce"; "garlic"]);
    ("Quesadilla", ["tortilla"; "cheese"; "chicken"]);
    ("Mac and Cheese", ["pasta"; "cheese"; "milk"; "butter"]);
    ("Curry", ["chicken"; "rice"; "curry powder"; "onion"; "tomato"]);
    ("Veggie Wrap", ["tortilla"; "lettuce"; "cucumber"; "tomato"; "cheese"]);
    ("Burger", ["bun"; "beef"; "lettuce"; "tomato"; "cheese"]);
    ("Scrambled Eggs", ["eggs"; "milk"; "butter"]) ].

(* ================================================================== *)
(** ** Matching *)

(** The value stored per recipe: [{"have": have, "missing": missing}]. *)
Record match_data : Type := MatchData {
  have : list string;
  missing : list string
}.

(** The test [normalize(r) in norm_set]. *)
Definition present (norm_set : PySet.t) (r : string) : bool :=
  PySet.mem (normalize_str r) norm_set.

(** The inner loop of [match_recipes]: each requirement is appended to
    [have] or to [missing]. *)
Definition split_reqs (norm_set : PySet.t) (reqs : list string) : match_data :=
  fold_left
    (fun acc r =>
       if present norm_set r
       then MatchData (have acc ++ [r]) (missing acc)
       else MatchData (have acc) (missing acc ++ [r]))
    reqs (MatchData [] []).

(** The outer loop of [match_recipes], over the items of a catalogue. *)
Definition match_catalog (catalog : PyDict.dict (list string))
    (norm_set : PySet.t) : PyDict.dict match_data :=
  fold_left
    (fun matches entry =>
       PyDict.set matches (fst entry) (split_reqs norm_set (snd entry)))
    catalog [].

(** The generator [normalize(i) for i in ingredients if i]. *)
Definition normalized_inputs (ingredients : list string) : list string :=
  List.map normalize_str
    (filter (fun i => negb (i =? "")%string) ingredients).

Definition match_recipes (ingredients : list string) : PyDict.dict match_data :=
  match_catalog recipes (PySet.of_list (normalized_inputs ingredients)).

(* ================================================================== *)
(** ** The scoring and sorting block of [index] *)

(** The loop "normalize + unique for display/match". *)
Definition norm_unique (ingredients : list string) : list string :=
  snd (fold_left
         (fun st ing =>
            let n := normalize_str ing in
            if negb (n =? "")%string && negb (PySet.mem n (fst st))
            then (PySet.add n (fst st), snd st ++ [n])
            else st)
         ingredients ([], [])).

(** [coverage = (have / total) if total else 0] *)
Definition coverage (data : match_data) : Q :=
  let h := List.length (have data) in
  let total := h + List.length (missing data) in
  if total =? 0 then 0%Q else (Z.of_nat h # Pos.of_nat total)%Q.

(** An element of [scored]: [(name, data, coverage)]. *)
Definition scored_entry : Type := string * match_data * Q.

Definition entry_name (e : scored_entry) : string := fst (fst e).
Definition entry_data (e : scored_entry) : match_data := snd (fst e).
Definition entry_coverage (e : scored_entry) : Q := snd e.

(** The loop that fills [scored]: recipes with [have > 0] only. *)
Definition score (recipe_matches : PyDict.dict match_data) : list scored_entry :=
  fold_left
    (fun scored item =>
       let h := List.length (have (snd item)) in
       if 0 <? h then scored ++ [(fst item, snd item, coverage (snd item))]
       else scored)
    recipe_matches [].

(** The sort key [(-x[2], x[0].lower())] and the order [<] of Python on such
    pairs: the first components decide unless they are equal. *)
Definition sort_key (e : scored_entry) : Q * string :=
  ((- entry_coverage e)%Q, PyStr.lower (entry_name e)).

Definition key_lt (a b : Q * string) : bool :=
  if Qeq_bool (fst a) (fst b) then String.ltb (snd a) (snd b)
  else negb (Qle_bool (fst b) (fst a)).

(** [list.sort(key=...)] is stable and compares keys with [<] only; so does
    this insertion sort, and a stable sort has one possible result. *)
Fixpoint insert_by_key (x : scored_entry) (l : list scored_entry) : list scored_entry :=
  match l with
  | [] => [x]
  | y :: l' =>
      if key_lt (sort_key y) (sort_key x) then y :: insert_by_key x l'
      else x :: l
  end.

Definition sort_by_key (l : list scored_entry) : list scored_entry :=
  fold_right insert_by_key [] l.

(** [scored] after [scored.sort(...)], from the result of [match_recipes]. *)
Definition rank (recipe_matches : PyDict.dict match_data) : list scored_entry :=
  sort_by_key (score recipe_matches).

(** What [index] hands to the template as [sorted_matches]. *)
Definition sorted_matches (ingredients : list string) : list scored_entry :=
  rank (match_recipes (norm_unique ingredients)).

(** The order of the ranked output, as the comment in [index] words it:
    coverage descending, then name ascending (lower-cased). *)
Definition ranks_before (a b : scored_entry) : Prop :=
  (entry_coverage b < entry_coverage a)%Q \/
  ((entry_coverage a == entry_coverage b)%Q /\
   String.leb (PyStr.lower (entry_name a)) (PyStr.lower (entry_name b)) = true).

(* ================================================================== *)
(** ** Facts about the string primitives *)

Module PyStrFacts.
Import PyStr.

Lemma length_app (s t : string) : length (s ++ t) = length s + length t.
Proof. induction s as [|c s IH]; simpl; [reflexivity | now rewrite IH]. Qed.

Lemma app_assoc (s t u : string) : ((s ++ t) ++ u)%string = (s ++ (t ++ u))%string.
Proof. induction s as [|c s IH]; simpl; [reflexivity | now rewrite IH]. Qed.

Lemma length_map f (s : string) : length (map f s) = length s.
Proof. induction s as [|c s IH]; simpl; [reflexivity | now rewrite IH]. Qed.

Lemma substring_all (s : string) : substring 0 (length s) s = s.
Proof. induction s as [|c s IH]; simpl; [reflexivity | now rewrite IH]. Qed.

Lemma substring_app_l (p s : string) : substring 0 (length p) (p ++ s) = p.
Proof.
  induction p as [|c p IH]; simpl.
  - destruct s; reflexivity.
  - now rewrite IH.
Qed.

Lemma substring_app_r (p s : string) (m : nat) :
  substring (length p) m (p ++ s) = substring 0 m s.
Proof. induction p as [|c p IH]; simpl; [reflexivity | exact IH]. Qed.

Lemma substring_split (s : string) (n m : nat) :
  (substring 0 n s ++ substring n m s)%string = substring 0 (n + m) s.
Proof.
  revert n; induction s as [|c s IH]; intros n.
  - destruct n, m; reflexivity.
  - destruct n as [|n]; simpl.
    + reflexivity.
    + now rewrite IH.
Qed.

Lemma length_substring (s : string) (n : nat) :
  n <= length s -> length (substring 0 n s) = n.
Proof.
  revert n; induction s as [|c s IH]; intros [|n]; simpl; intros H;
    try reflexivity; try lia.
  rewrite IH; lia.
Qed.

(** [endswith] is suffix decomposition. *)
Lemma endswith_app (p suffix : string) : endswith (p ++ suffix) suffix = true.
Proof.
  unfold endswith. rewrite length_app.
  replace (length p + length suffix - length suffix) with (length p) by lia.
  rewrite substring_app_r, substring_all, String.eqb_refl.
  rewrite andb_true_r. apply Nat.leb_le. lia.
Qed.

Lemma endswith_split (s suffix : string) :
  endswith s suffix = true -> s = (drop_last (length suffix) s ++ suffix)%string.
Proof.
  unfold endswith, drop_last. intros H.
  apply andb_true_iff in H as [Hlen Heq].
  apply Nat.leb_le in Hlen. apply String.eqb_eq in Heq.
  transitivity (substring 0 (length s - length suffix) s ++
                substring (length s - length suffix) (length suffix) s)%string.
  - rewrite substring_split.
    replace (length s - length suffix + length suffix) with (length s) by lia.
    now rewrite substring_all.
  - now rewrite Heq.
Qed.

Lemma endswith_iff (s suffix : string) :
  endswith s suffix = true <-> exists p, s = (p ++ suffix)%string.
Proof.
  split.
  - intros H. eexists. now apply endswith_split.
  - intros [p ->]. apply endswith_app.
Qed.

Lemma drop_last_app (p suffix : string) :
  drop_last (length suffix) (p ++ suffix) = p.
Proof.
  unfold drop_last. rewrite length_app.
  replace (length p + length suffix - length suffix) with (length p) by lia.
  apply substring_app_l.
Qed.

Lemma app_inv_tail (p q suffix : string) :
  (p ++ suffix)%string = (q ++ suffix)%string -> p = q.
Proof.
  intros H. rewrite <- (drop_last_app p suffix), <- (drop_last_app q suffix).
  now rewrite H.
Qed.

Lemma length_drop_last (k : nat) (s : string) :
  length (drop_last k s) = length s - k.
Proof. unfold drop_last. apply length_substring. lia. Qed.

End PyStrFacts.

(* ================================================================== *)
(** ** Singularisation *)

Section Singularize.
Import PyStr PyStrFacts.

Lemma guard_iff (w suffix : string) (k : nat) :
  endswith w suffix && (k <? length w) = true <->
  (exists p, w = (p ++ suffix)%string) /\ k < length w.
Proof.
  rewrite andb_true_iff, endswith_iff, Nat.ltb_lt. reflexivity.
Qed.

Lemma guard_false (w suffix : string) (k : nat) :
  endswith w suffix && (k <? length w) = false ->
  ~ ((exists p, w = (p ++ suffix)%string) /\ k < length w).
Proof.
  intros H G. apply guard_iff in G. congruence.
Qed.

Lemma singularize_sound (w : string) : singular_form w (singularize w).
Proof.
  unfold singularize.
  destruct (endswith w "ies" && (3 <? length w)) eqn:G1.
  { apply andb_true_iff in G1 as [E L]. apply Nat.ltb_lt in L.
    apply by_ies; [now apply (endswith_split w "ies") | exact L]. }
  apply guard_false in G1.
  destruct (endswith w "oes" && (3 <? length w)) eqn:G2.
  { apply andb_true_iff in G2 as [E L]. apply Nat.ltb_lt in L.
    pose proof (endswith_split w "oes" E) as Hw. simpl length in Hw.
    set (p := drop_last 3 w) in *.
    replace (drop_last 2 w) with (p ++ "o")%string.
    - now apply by_oes.
    - rewrite Hw at 1.
      change (p ++ "oes")%string with (p ++ ("o" ++ "es"))%string.
      rewrite <- app_assoc. symmetry. apply (drop_last_app _ "es"). }
  apply guard_false in G2.
  destruct (endswith w "es" && (2 <? length w)) eqn:G3.
  { apply andb_true_iff in G3 as [E L]. apply Nat.ltb_lt in L.
    apply by_es; auto. now apply (endswith_split w "es"). }
  apply guard_false in G3.
  destruct (endswith w "s" && (1 <? length w)) eqn:G4.
  { apply andb_true_iff in G4 as [E L]. apply Nat.ltb_lt in L.
    apply by_s; auto. now apply (endswith_split w "s"). }
  apply guard_false in G4.
  now apply unchanged.
Qed.

Lemma singular_form_functional (w r1 r2 : string) :
  singular_form w r1 -> singular_form w r2 -> r1 = r2.
Proof.
  intros H1 H2.
  destruct H1 as [p Hp Lp | p N1 Hp Lp | p N1 N2 Hp Lp | p N1 N2 N3 Hp Lp | N1 N2 N3 N4];
  destruct H2 as [q Hq Lq | q M1 Hq Lq | q M1 M2 Hq Lq | q M1 M2 M3 Hq Lq | M1 M2 M3 M4];
  try reflexivity;
  try (exfalso;
       match goal with
       | N : ~ _ |- _ =>
           solve [apply N; split; [eexists; eassumption | assumption]]
       end);
  rewrite Hp in Hq; apply app_inv_tail in Hq; now subst.
Qed.

Lemma length_singularize_pos (w : string) :
  0 < length w -> 0 < length (singularize w).
Proof.
  intros Hw. unfold singularize.
  repeat match goal with
  | |- context [if ?b then _ else _] =>
      let G := fresh "G" in
      destruct b eqn:G;
      [ apply andb_true_iff in G as [_ G]; apply Nat.ltb_lt in G;
        rewrite ?length_app, ?length_drop_last; simpl; lia | clear G ]
  end.
  exact Hw.
Qed.

Lemma length_singularize_le (w : string) :
  length (singularize w) <= length w.
Proof.
  unfold singularize.
  repeat match goal with
  | |- context [if ?b then _ else _] =>
      let G := fresh "G" in
      destruct b eqn:G;
      [ apply andb_true_iff in G as [_ G]; apply Nat.ltb_lt in G;
        rewrite ?length_app, ?length_drop_last; simpl; lia | clear G ]
  end.
  lia.
Qed.

End Singularize.

(* ================================================================== *)
(** ** Case folding, trimming and separators *)

Section Folding.
Import PyStr PyStrFacts.

Ltac each_char c :=
  destruct c as [[] [] [] [] [] [] [] []]; vm_compute.

Lemma str_map_map (g h : ascii -> ascii) (s : string) :
  map g (map h s) = map (fun c => g (h c)) s.
Proof. induction s as [|c s IH]; simpl; [reflexivity | now rewrite IH]. Qed.

(** Two maps agree on a string fixed by [f] when they agree on the
    characters fixed by [f]. *)
Lemma str_map_ext_fixed (f g h : ascii -> ascii) :
  (forall c, f c = c -> g c = h c) ->
  forall s, map f s = s -> map g s = map h s.
Proof.
  intros Hc s. induction s as [|c s IH]; simpl; intros H.
  - reflexivity.
  - injection H as Hf Hs. now rewrite Hc, IH.
Qed.

Lemma str_map_app f (s t : string) : map f (s ++ t) = (map f s ++ map f t)%string.
Proof. induction s as [|c s IH]; simpl; [reflexivity | now rewrite IH]. Qed.

Lemma str_map_substring f (s : string) (n m : nat) :
  map f (substring n m s) = substring n m (map f s).
Proof.
  revert n m; induction s as [|c s IH]; intros n m.
  - destruct n, m; reflexivity.
  - destruct n as [|n]; simpl.
    + destruct m as [|m]; simpl; [reflexivity | now rewrite IH].
    + apply IH.
Qed.

Lemma str_map_lstrip f (s : string) : map f s = s -> map f (lstrip s) = lstrip s.
Proof.
  induction s as [|c s IH]; simpl; intros H.
  - reflexivity.
  - destruct (isspace c).
    + injection H as _ Hs. now apply IH.
    + exact H.
Qed.

Lemma str_map_rstrip f (s : string) : map f s = s -> map f (rstrip s) = rstrip s.
Proof.
  induction s as [|c s IH]; simpl; intros H.
  - reflexivity.
  - injection H as Hc Hs. specialize (IH Hs).
    destruct (rstrip s) as [|d r].
    + destruct (isspace c); simpl; [reflexivity | now rewrite Hc].
    + simpl in *. now rewrite Hc, IH.
Qed.

Lemma str_map_strip f (s : string) : map f s = s -> map f (strip s) = strip s.
Proof. intros H. unfold strip. now apply str_map_rstrip, str_map_lstrip. Qed.

Lemma lower_char_idem (c : ascii) : lower_char (lower_char c) = lower_char c.
Proof. each_char c; reflexivity. Qed.

Lemma lower_idem (s : string) : lower (lower s) = lower s.
Proof.
  unfold lower. induction s as [|c s IH]; simpl;
    [reflexivity | now rewrite lower_char_idem, IH].
Qed.

Lemma length_lstrip (s : string) :
  lstrip s = s \/ length (lstrip s) < length s.
Proof.
  induction s as [|c s IH]; simpl.
  - now left.
  - destruct (isspace c); [right | now left].
    destruct IH as [-> | IH]; lia.
Qed.

Lemma length_rstrip (s : string) :
  rstrip s = s \/ length (rstrip s) < length s.
Proof.
  induction s as [|c s IH]; simpl.
  - now left.
  - destruct (rstrip s) as [|d r] eqn:E.
    + destruct (isspace c); simpl.
      * right; lia.
      * destruct IH as [<- | IH]; [now left | right; simpl in *; lia].
    + destruct IH as [<- | IH]; [now left | right; simpl in *; lia].
Qed.

Lemma length_strip (s : string) :
  strip s = s \/ length (strip s) < length s.
Proof.
  unfold strip.
  destruct (length_lstrip s) as [-> | Hl].
  - apply length_rstrip.
  - right. destruct (length_rstrip (lstrip s)) as [-> | Hr]; lia.
Qed.

Lemma folded_app (s t : string) : folded s -> folded t -> folded (s ++ t).
Proof.
  unfold folded, lower, replace.
  intros (A & B & C) (A' & B' & C'). rewrite !str_map_app. now repeat split; f_equal.
Qed.

Lemma folded_drop_last (k : nat) (s : string) :
  folded s -> folded (drop_last k s).
Proof.
  unfold folded, lower, replace, drop_last.
  intros (A & B & C). rewrite !str_map_substring.
  now rewrite A, B, C.
Qed.

Lemma folded_strip (s : string) : folded s -> folded (strip s).
Proof.
  unfold folded, lower, replace.
  intros (A & B & C). repeat split; now apply str_map_strip.
Qed.

(** The result of the first two statements of [normalize] is folded. *)
Lemma folded_clean (word : option string) : folded (clean word).
Proof.
  unfold clean, folded.
  set (t := strip (lower (or_empty word))).
  assert (Ht : map lower_char t = t) by (apply str_map_strip, lower_idem).
  unfold lower, replace. rewrite !str_map_map.
  repeat split;
    (apply str_map_ext_fixed with (f := lower_char); [|exact Ht]);
    intros c; each_char c; intros H; try reflexivity; discriminate H.
Qed.

(** On a folded string the first two statements only trim. *)
Lemma clean_folded (s : string) : folded s -> clean (Some s) = strip s.
Proof.
  intros F. pose proof (folded_strip s F) as (A & B & C).
  destruct F as (L & _). unfold clean; simpl. rewrite L, B. exact C.
Qed.

End Folding.

(* ================================================================== *)
(** ** The normaliser *)

Section Normalizer.
Import PyStr PyStrFacts.

Lemma lookup_value_In {V : Type} (d : PyDict.dict V) (k : string) (v : V) :
  PyDict.lookup d k = Some v -> In v (List.map snd d).
Proof.
  induction d as [|[k' v'] d IH]; simpl; [discriminate|].
  destruct (k' =? k)%string.
  - intros [= ->]. now left.
  - intros H. right. now apply IH.
Qed.

(** Every value of the table is already in its final form: it is no key,
    no rule of [singularize] applies to it, and it is folded and trimmed. *)
Lemma synonym_values :
  Forall (fun v => PyDict.lookup SYNONYMS v = None /\ singularize v = v /\
                   strip v = v /\ folded v)
         (List.map snd SYNONYMS).
Proof. repeat constructor. Qed.

Lemma synonym_value (k v : string) :
  PyDict.lookup SYNONYMS k = Some v ->
  PyDict.lookup SYNONYMS v = None /\ singularize v = v /\
  strip v = v /\ folded v.
Proof.
  intros H. apply lookup_value_In in H.
  exact (proj1 (Forall_forall _ _) synonym_values v H).
Qed.

(** The table literal has no repeated key, so a lookup finds the one entry. *)
Lemma synonyms_keys_distinct : NoDup (PyDict.keys SYNONYMS).
Proof.
  repeat (constructor; [simpl; intuition discriminate|]). constructor.
Qed.

Lemma get_value (k v : string) :
  PyDict.lookup SYNONYMS k = Some v -> PyDict.get SYNONYMS k k = v.
Proof. unfold PyDict.get. now intros ->. Qed.

Lemma get_no_key (k : string) :
  PyDict.lookup SYNONYMS k = None -> PyDict.get SYNONYMS k k = k.
Proof. unfold PyDict.get. now intros ->. Qed.

(** The two ways a result of [normalize] comes about. *)
Lemma normalize_cases (word : option string) :
  (exists k, PyDict.lookup SYNONYMS k = Some (normalize word)) \/
  (normalize word = singularize (clean word) /\
   PyDict.lookup SYNONYMS (normalize word) = None).
Proof.
  unfold normalize.
  destruct (PyDict.lookup SYNONYMS (clean word)) as [v|] eqn:E1.
  - left. exists (clean word).
    rewrite (get_value _ _ E1).
    destruct (synonym_value _ _ E1) as (Hk & Hs & _).
    now rewrite Hs, (get_no_key _ Hk).
  - rewrite (get_no_key _ E1).
    destruct (PyDict.lookup SYNONYMS (singularize (clean word))) as [v|] eqn:E2.
    + left. exists (singularize (clean word)). now rewrite (get_value _ _ E2).
    + right. now rewrite (get_no_key _ E2).
Qed.

Lemma folded_singularize (w : string) : folded w -> folded (singularize w).
Proof.
  intros F. unfold singularize.
  repeat match goal with
  | |- context [if ?b then _ else _] => destruct b
  end; try assumption; try now apply folded_drop_last.
  apply folded_app; [now apply folded_drop_last | repeat split].
Qed.

Lemma normalize_folded (word : option string) : folded (normalize word).
Proof.
  destruct (normalize_cases word) as [[k Hk] | [-> _]].
  - now apply synonym_value in Hk.
  - apply folded_singularize, folded_clean.
Qed.

Lemma normalize_no_key (word : option string) :
  PyDict.lookup SYNONYMS (normalize word) = None.
Proof.
  destruct (normalize_cases word) as [[k Hk] | [_ H]].
  - now apply synonym_value in Hk.
  - exact H.
Qed.

(** C1 (as stated) fails: ["glasses"] normalises to ["glass"], which
    normalises to ["glas"]. *)
Lemma normalize_twice_glasses :
  normalize_str (normalize_str "glasses") <> normalize_str "glasses".
Proof. vm_compute. discriminate. Qed.

(** C1 (amended): a second pass of [normalize] returns a normal form
    [n = normalize word] unchanged exactly when [n] carries no leading or
    trailing white space and no suffix rule of [singularize] applies to it. *)
Theorem normalize_idempotent_iff (word : option string) :
  let n := normalize word in
  normalize (Some n) = n <-> strip n = n /\ singularize n = n.
Proof.
  intros n.
  assert (F : folded n) by apply normalize_folded.
  assert (K : PyDict.lookup SYNONYMS n = None) by apply normalize_no_key.
  split.
  - intros H.
    destruct (normalize_cases (Some n)) as [[k Hk] | [Hs _]]; rewrite H in *.
    + now apply synonym_value in Hk.
    + rewrite (clean_folded _ F) in Hs.
      destruct (length_strip n) as [E | L].
      * rewrite E in Hs. now split.
      * exfalso. pose proof (length_singularize_le (strip n)) as L'.
        rewrite <- Hs in L'. lia.
  - intros [Ht Hs]. unfold normalize.
    rewrite (clean_folded _ F), Ht, (get_no_key _ K), Hs.
    now apply get_no_key.
Qed.

(** C5: when the cleaned input is a key of the table, [normalize] returns
    the value stored under that key; the later [singularize] step leaves
    that value as it is. *)
Theorem normalize_synonym (word : option string) (v : string) :
  PyDict.lookup SYNONYMS (clean word) = Some v ->
  normalize word = v /\ singularize v = v.
Proof.
  intros H. destruct (synonym_value _ _ H) as (Hk & Hs & _).
  split; [|exact Hs].
  unfold normalize. rewrite (get_value _ _ H), Hs. now apply get_no_key.
Qed.

Lemma normalize_synonym_witness :
  PyDict.lookup SYNONYMS (clean (Some " Buttermilk ")) = Some "milk" /\
  normalize (Some " Buttermilk ") = "milk" /\ singularize "milk" = "milk".
Proof.
  split; [reflexivity|].
  apply (normalize_synonym (Some " Buttermilk ") "milk"). reflexivity.
Defined.

(** C6: the normal forms the specification lists. *)
Theorem normalize_examples :
  normalize_str "Olive-Oil" = "olive oil" /\
  normalize_str "olive_oil" = "olive oil" /\
  normalize_str "OLIVE OIL" = "olive oil" /\
  normalize_str "tomatoes" = "tomato" /\
  normalize_str "tomato" = "tomato" /\
  normalize_str "berries" = "berry" /\
  normalize_str "buttermilk" = "milk" /\
  normalize_str "yoghurt" = "yogurt".
Proof. repeat split. Qed.

(** C7: [singularize] is the function the ordered suffix rules describe;
    it leaves ["s"] alone, never empties a word, and on ["eggs"] the suffix
    rule and the table entry give the same ["egg"]. *)
Theorem singularize_rules (w : string) :
  singular_form w (singularize w) /\
  (forall r, singular_form w r -> r = singularize w) /\
  (w <> "" -> singularize w <> "") /\
  singularize "s" = "s" /\
  singularize "eggs" = "egg" /\
  PyDict.lookup SYNONYMS "eggs" = Some "egg" /\
  normalize_str "eggs" = "egg".
Proof.
  split; [apply singularize_sound|].
  split.
  { intros r Hr. exact (singular_form_functional w _ _ Hr (singularize_sound w)). }
  split.
  { intros Hw He.
    assert (0 < length w) as L by (destruct w; simpl; [congruence | lia]).
    apply length_singularize_pos in L. rewrite He in L. simpl in L. lia. }
  repeat split.
Qed.

Lemma singularize_rules_witness :
  singular_form "berries" "berry" /\ singularize "berries" = "berry" /\
  singularize "berries" <> "".
Proof.
  destruct (singularize_rules "berries") as (Hs & Hu & Hn & _).
  split; [exact Hs|]. split; [reflexivity|].
  apply Hn. discriminate.
Defined.

(** C8: a call of [normalize] on a string or on [None] raises nothing and
    returns the string [normalize] stands for; for [None] and for the empty
    string that string is empty. *)
Theorem normalize_total :
  (forall word : option string,
     normalize_call word = Returned (normalize word)) /\
  normalize None = "" /\
  normalize (Some "") = "".
Proof.
  split; [|split; reflexivity].
  intros [[|c s]|]; reflexivity.
Qed.

End Normalizer.

(* ================================================================== *)
(** ** Sets and dictionaries *)

Section Containers.

Lemma mem_In (x : string) (s : PySet.t) : PySet.mem x s = true <-> In x s.
Proof.
  unfold PySet.mem. rewrite existsb_exists. split.
  - intros (y & Hy & E). apply String.eqb_eq in E. now subst.
  - intros H. exists x. split; [exact H | apply String.eqb_refl].
Qed.

Lemma mem_ext (s1 s2 : PySet.t) :
  (forall x, In x s1 <-> In x s2) ->
  forall x, PySet.mem x s1 = PySet.mem x s2.
Proof.
  intros H x. apply eq_true_iff_eq. now rewrite !mem_In.
Qed.

Lemma add_spec (x : string) (s : PySet.t) :
  NoDup s ->
  NoDup (PySet.add x s) /\ forall y, In y (PySet.add x s) <-> In y s \/ y = x.
Proof.
  intros N. unfold PySet.add. destruct (PySet.mem x s) eqn:E.
  - apply mem_In in E. split; [exact N|].
    intros y. split; [tauto | intros [H | ->]; assumption].
  - assert (~ In x s) as Hx by (rewrite <- mem_In; congruence).
    split.
    + apply NoDup_app; [exact N | repeat constructor; intros [] |].
      intros y Hy [<- | []]. contradiction.
    + intros y. rewrite in_app_iff. simpl. intuition.
Qed.

Lemma fold_add_spec (xs : list string) (acc : PySet.t) :
  NoDup acc ->
  NoDup (fold_left (fun s x => PySet.add x s) xs acc) /\
  forall y, In y (fold_left (fun s x => PySet.add x s) xs acc) <->
            In y acc \/ In y xs.
Proof.
  revert acc; induction xs as [|x xs IH]; intros acc N; simpl.
  - split; [exact N | intros y; tauto].
  - destruct (add_spec x acc N) as [N' H'].
    destruct (IH _ N') as [N'' H'']. split; [exact N''|].
    intros y. rewrite H'', H'. intuition.
Qed.

(** [set(xs)] as modelled is one of the arrangements of [xs]. *)
Lemma of_list_arranges (xs : list string) : PySet.arranges xs (PySet.of_list xs).
Proof.
  destruct (fold_add_spec xs [] (NoDup_nil _)) as [N H].
  split; [exact N|]. intros x. rewrite (H x). simpl. tauto.
Qed.

Lemma mem_of_list (xs : list string) (x : string) :
  PySet.mem x (PySet.of_list xs) = PySet.mem x xs.
Proof. apply mem_ext. apply of_list_arranges. Qed.

Context {V : Type}.

Lemma set_fresh (d : PyDict.dict V) (k : string) (v : V) :
  ~ In k (PyDict.keys d) -> PyDict.set d k v = d ++ [(k, v)].
Proof.
  induction d as [|[k' v'] d IH]; simpl; intros H.
  - reflexivity.
  - destruct (k' =? k)%string eqn:E.
    + apply String.eqb_eq in E. tauto.
    + rewrite IH; [reflexivity | tauto].
Qed.

Lemma set_In (d : PyDict.dict V) (k : string) (v : V) (e : string * V) :
  In e (PyDict.set d k v) -> e = (k, v) \/ In e d.
Proof.
  induction d as [|[k' v'] d IH]; simpl.
  - intros [<- | []]. now left.
  - destruct (k' =? k)%string eqn:E; simpl.
    + apply String.eqb_eq in E. subst k'. intuition.
    + intuition.
Qed.

Lemma lookup_In_unique (d : PyDict.dict V) (k : string) (v : V) :
  NoDup (PyDict.keys d) -> In (k, v) d -> PyDict.lookup d k = Some v.
Proof.
  induction d as [|[k' v'] d IH]; simpl; intros N H; [contradiction|].
  inversion N as [|? ? Hk N']; subst.
  destruct H as [[= -> ->] | H].
  - now rewrite String.eqb_refl.
  - destruct (k' =? k)%string eqn:E.
    + apply String.eqb_eq in E. subst k'.
      exfalso. apply Hk. change k with (fst (k, v)). now apply in_map.
    + now apply IH.
Qed.

Lemma lookup_Some_In (d : PyDict.dict V) (k : string) (v : V) :
  PyDict.lookup d k = Some v -> In (k, v) d.
Proof.
  induction d as [|[k' v'] d IH]; simpl; [discriminate|].
  destruct (k' =? k)%string eqn:E.
  - apply String.eqb_eq in E. intros [= ->]. subst. now left.
  - intros H. right. now apply IH.
Qed.

End Containers.

(* ================================================================== *)
(** ** The matcher *)

Section Matcher.

Lemma split_reqs_from (norm_set : PySet.t) (reqs : list string) (acc : match_data) :
  fold_left
    (fun acc r =>
       if present norm_set r
       then MatchData (have acc ++ [r]) (missing acc)
       else MatchData (have acc) (missing acc ++ [r]))
    reqs acc =
  MatchData (have acc ++ filter (present norm_set) reqs)
            (missing acc ++ filter (fun r => negb (present norm_set r)) reqs).
Proof.
  revert acc; induction reqs as [|r reqs IH]; intros [h m]; simpl.
  - now rewrite !app_nil_r.
  - rewrite IH.
    destruct (present norm_set r); simpl; now rewrite <- ?app_assoc.
Qed.

(** The inner loop is a stable partition of the requirement list. *)
Lemma split_reqs_filter (norm_set : PySet.t) (reqs : list string) :
  split_reqs norm_set reqs =
  MatchData (filter (present norm_set) reqs)
            (filter (fun r => negb (present norm_set r)) reqs).
Proof. unfold split_reqs. now rewrite split_reqs_from. Qed.

Lemma split_reqs_length (norm_set : PySet.t) (reqs : list string) :
  List.length (have (split_reqs norm_set reqs)) +
  List.length (missing (split_reqs norm_set reqs)) = List.length reqs.
Proof.
  rewrite split_reqs_filter. simpl.
  induction reqs as [|r reqs IH]; simpl; [reflexivity|].
  destruct (present norm_set r); simpl; lia.
Qed.

Lemma split_reqs_ext (s1 s2 : PySet.t) (reqs : list string) :
  (forall x, PySet.mem x s1 = PySet.mem x s2) ->
  split_reqs s1 reqs = split_reqs s2 reqs.
Proof.
  intros H. rewrite !split_reqs_filter.
  f_equal; apply filter_ext; intros r; unfold present; now rewrite H.
Qed.

Lemma match_catalog_from (catalog : PyDict.dict (list string))
    (norm_set : PySet.t) (acc : PyDict.dict match_data) :
  NoDup (PyDict.keys acc ++ PyDict.keys catalog) ->
  fold_left
    (fun matches entry =>
       PyDict.set matches (fst entry) (split_reqs norm_set (snd entry)))
    catalog acc =
  acc ++ List.map (fun e => (fst e, split_reqs norm_set (snd e))) catalog.
Proof.
  revert acc; induction catalog as [|[name reqs] catalog IH]; intros acc N; simpl.
  - now rewrite app_nil_r.
  - simpl in N. pose proof (NoDup_remove_2 _ _ _ N) as Hn.
    rewrite set_fresh by (intros H; apply Hn, in_or_app; now left).
    rewrite IH.
    + now rewrite <- app_assoc.
    + unfold PyDict.keys in *. rewrite map_app, <- app_assoc. exact N.
Qed.

(** With distinct recipe names the outer loop maps the catalogue entry by
    entry, in its order. *)
Lemma match_catalog_map (catalog : PyDict.dict (list string)) (norm_set : PySet.t) :
  NoDup (PyDict.keys catalog) ->
  match_catalog catalog norm_set =
  List.map (fun e => (fst e, split_reqs norm_set (snd e))) catalog.
Proof. intros N. unfold match_catalog. now rewrite match_catalog_from. Qed.

(** Whatever the catalogue, an item of the result is a catalogue entry with
    its requirements split. *)
Lemma match_catalog_In (catalog : PyDict.dict (list string)) (norm_set : PySet.t)
    (name : string) (data : match_data) :
  In (name, data) (match_catalog catalog norm_set) ->
  exists reqs, In (name, reqs) catalog /\ data = split_reqs norm_set reqs.
Proof.
  unfold match_catalog.
  assert (G : forall acc,
    (forall n d, In (n, d) acc ->
       exists reqs, In (n, reqs) catalog /\ d = split_reqs norm_set reqs) ->
    forall l, incl l catalog ->
    forall n d,
      In (n, d) (fold_left
        (fun matches entry =>
           PyDict.set matches (fst entry) (split_reqs norm_set (snd entry)))
        l acc) ->
      exists reqs, In (n, reqs) catalog /\ d = split_reqs norm_set reqs).
  { intros acc Hacc l; revert acc Hacc.
    induction l as [|[k reqs] l IH]; intros acc Hacc Hl n d; simpl.
    - apply Hacc.
    - apply IH.
      + intros n' d' H. apply set_In in H as [[= -> ->] | H].
        * exists reqs. split; [apply Hl; now left | reflexivity].
        * now apply Hacc.
      + intros e He. apply Hl. now right. }
  apply (G [] (fun n d H => match H with end) catalog (incl_refl _)).
Qed.

Lemma match_catalog_ext (catalog : PyDict.dict (list string)) (s1 s2 : PySet.t) :
  (forall x, PySet.mem x s1 = PySet.mem x s2) ->
  match_catalog catalog s1 = match_catalog catalog s2.
Proof.
  intros H. unfold match_catalog. generalize (@nil (string * match_data)).
  induction catalog as [|e catalog IH]; intros acc; simpl; [reflexivity|].
  now rewrite (split_reqs_ext s1 s2 _ H), IH.
Qed.

Lemma recipes_names_distinct : NoDup (PyDict.keys recipes).
Proof.
  repeat (constructor; [simpl; intuition discriminate|]). constructor.
Qed.

Lemma match_recipes_map (ingredients : list string) :
  match_recipes ingredients =
  List.map
    (fun e =>
       (fst e,
        MatchData
          (filter (present (normalized_inputs ingredients)) (snd e))
          (filter (fun r => negb (present (normalized_inputs ingredients) r))
                  (snd e))))
    recipes.
Proof.
  unfold match_recipes.
  rewrite (match_catalog_ext recipes _ (normalized_inputs ingredients))
    by (intros x; apply mem_of_list).
  rewrite match_catalog_map by exact recipes_names_distinct.
  apply map_ext. intros e. now rewrite split_reqs_filter.
Qed.

(** Inputs that are non-empty and that [normalize] leaves alone are their
    own normalised inputs. *)
Lemma normalized_inputs_settled (ingredients : list string) :
  (forall i, In i ingredients -> i <> "" /\ normalize_str i = i) ->
  normalized_inputs ingredients = ingredients.
Proof.
  unfold normalized_inputs.
  induction ingredients as [|i l IH]; intros H; [reflexivity|].
  destruct (H i (or_introl eq_refl)) as [Hne Hs].
  cbn [filter]. destruct (String.eqb_spec i "") as [E | _]; [contradiction|].
  cbn [negb List.map]. rewrite Hs. f_equal.
  apply IH. intros j Hj. apply H. now right.
Qed.

(** C3 (as stated) fails: with the ingredient set [{"milks"}], a normal form
    (of "milkss"), no requirement of "Scrambled Eggs" has its normal form
    in the set, yet [match_recipes] normalises the set once more, to
    [{"milk"}], and puts "milk" under [have]. *)
Lemma match_recipes_raw_set_fails :
  PyDict.lookup (match_recipes ["milks"]) "Scrambled Eggs" <>
  Some (MatchData
          (filter (present ["milks"]) ["eggs"; "milk"; "butter"])
          (filter (fun r => negb (present ["milks"] r))
                  ["eggs"; "milk"; "butter"])).
Proof. vm_compute. discriminate. Qed.

(** C3 (amended): the result of [match_recipes] lists the recipes of the
    catalogue in the catalogue's order, each with its requirements split,
    in their order, into those whose normal form is the normal form of
    some non-empty input ([have]) and the others ([missing]); when every
    input is non-empty and left alone by [normalize], that is membership
    of the normal form in the ingredient set itself; with eggs, milk and
    butter at hand "Scrambled Eggs" has everything. *)
Theorem match_recipes_partition (ingredients : list string) :
  let inputs := normalized_inputs ingredients in
  PyDict.keys (match_recipes ingredients) = PyDict.keys recipes /\
  (forall name reqs, In (name, reqs) recipes ->
     PyDict.lookup (match_recipes ingredients) name =
     Some (MatchData (filter (present inputs) reqs)
                     (filter (fun r => negb (present inputs r)) reqs))) /\
  ((forall i, In i ingredients -> i <> "" /\ normalize_str i = i) ->
   forall name reqs, In (name, reqs) recipes ->
     PyDict.lookup (match_recipes ingredients) name =
     Some (MatchData (filter (present ingredients) reqs)
                     (filter (fun r => negb (present ingredients r)) reqs))) /\
  PyDict.lookup (match_recipes ["egg"; "milk"; "butter"]) "Scrambled Eggs" =
    Some (MatchData ["eggs"; "milk"; "butter"] []) /\
  (coverage (MatchData ["eggs"; "milk"; "butter"] []) == 1)%Q.
Proof.
  intros inputs.
  assert (G : forall name reqs, In (name, reqs) recipes ->
     PyDict.lookup (match_recipes ingredients) name =
     Some (MatchData (filter (present inputs) reqs)
                     (filter (fun r => negb (present inputs r)) reqs))).
  { intros name reqs H.
    apply lookup_In_unique.
    + rewrite match_recipes_map. unfold PyDict.keys.
      rewrite List.map_map. exact recipes_names_distinct.
    + rewrite match_recipes_map. apply in_map_iff.
      exists (name, reqs). split; [reflexivity | exact H]. }
  split; [|split; [exact G | split; [|split; reflexivity]]].
  - rewrite match_recipes_map. unfold PyDict.keys.
    rewrite List.map_map. reflexivity.
  - intros S name reqs H. rewrite (G name reqs H).
    unfold inputs. now rewrite (normalized_inputs_settled _ S).
Qed.

Lemma match_recipes_partition_witness :
  In ("Omelette", ["eggs"; "milk"; "cheese"; "butter"]) recipes /\
  PyDict.lookup (match_recipes ["Butter"; "EGGS"; "milk"]) "Omelette" =
    Some (MatchData ["eggs"; "milk"; "butter"] ["cheese"]) /\
  (forall i, In i ["butter"; "egg"] -> i <> "" /\ normalize_str i = i) /\
  PyDict.lookup (match_recipes ["butter"; "egg"]) "Omelette" =
    Some (MatchData (filter (present ["butter"; "egg"])
                       ["eggs"; "milk"; "cheese"; "butter"])
                    (filter (fun r => negb (present ["butter"; "egg"] r))
                       ["eggs"; "milk"; "cheese"; "butter"])).
Proof.
  assert (H : In ("Omelette", ["eggs"; "milk"; "cheese"; "butter"]) recipes)
    by (simpl; tauto).
  assert (S : forall i, In i ["butter"; "egg"] ->
                        i <> "" /\ normalize_str i = i).
  { intros i [<- | [<- | []]]; (split; [discriminate | reflexivity]). }
  split; [exact H|]. split.
  - exact (proj1 (proj2 (match_recipes_partition ["Butter"; "EGGS"; "milk"]))
             "Omelette" ["eggs"; "milk"; "cheese"; "butter"] H).
  - split; [exact S|].
    exact (proj1 (proj2 (proj2 (match_recipes_partition ["butter"; "egg"])))
             S "Omelette" ["eggs"; "milk"; "cheese"; "butter"] H).
Defined.

Lemma coverage_quotient (data : match_data) :
  List.length (have data) + List.length (missing data) <> 0 ->
  (coverage data ==
   inject_Z (Z.of_nat (List.length (have data))) /
   inject_Z (Z.of_nat (List.length (have data) + List.length (missing data))))%Q.
Proof.
  intros H. unfold coverage.
  destruct (Nat.eqb_spec (List.length (have data) + List.length (missing data)) 0)
    as [E | _]; [contradiction|].
  rewrite Qmake_Qdiv.
  now rewrite <- positive_nat_Z, Nat2Pos.id.
Qed.

Lemma coverage_no_reqs (data : match_data) :
  List.length (have data) + List.length (missing data) = 0 ->
  coverage data = 0%Q.
Proof. intros H. unfold coverage. now rewrite H. Qed.

Lemma recipes_nonempty : Forall (fun e => snd e <> []) recipes.
Proof. repeat constructor; discriminate. Qed.

(** C4: for an item of the match result, over any catalogue, [have] and
    [missing] together have as many elements as the recipe has
    requirements; coverage is the quotient [|have| / (|have| + |missing|)]
    when there is a requirement and [0] when there is none.  In the
    catalogue of the program every recipe has a requirement; with eggs,
    milk and butter at hand "Omelette" lacks the cheese and is covered to
    three quarters. *)
Theorem coverage_ratio :
  (forall catalog norm_set name data,
     In (name, data) (match_catalog catalog norm_set) ->
     exists reqs,
       In (name, reqs) catalog /\
       List.length (have data) + List.length (missing data) = List.length reqs /\
       (reqs <> [] ->
        (coverage data ==
         inject_Z (Z.of_nat (List.length (have data))) /
         inject_Z (Z.of_nat (List.length (have data) + List.length (missing data))))%Q) /\
       (reqs = [] -> coverage data = 0%Q)) /\
  (forall ingredients name data,
     In (name, data) (match_recipes ingredients) ->
     (coverage data ==
      inject_Z (Z.of_nat (List.length (have data))) /
      inject_Z (Z.of_nat (List.length (have data) + List.length (missing data))))%Q) /\
  PyDict.lookup (match_recipes ["egg"; "milk"; "butter"]) "Omelette" =
    Some (MatchData ["eggs"; "milk"; "butter"] ["cheese"]) /\
  (coverage (MatchData ["eggs"; "milk"; "butter"] ["cheese"]) == 3 # 4)%Q.
Proof.
  assert (G : forall catalog norm_set name data,
     In (name, data) (match_catalog catalog norm_set) ->
     exists reqs,
       In (name, reqs) catalog /\
       List.length (have data) + List.length (missing data) = List.length reqs /\
       (reqs <> [] ->
        (coverage data ==
         inject_Z (Z.of_nat (List.length (have data))) /
         inject_Z (Z.of_nat (List.length (have data) + List.length (missing data))))%Q) /\
       (reqs = [] -> coverage data = 0%Q)).
  { intros catalog norm_set name data H.
    apply match_catalog_In in H as (reqs & Hin & ->).
    exists reqs. pose proof (split_reqs_length norm_set reqs) as L.
    split; [exact Hin|]. split; [exact L|]. split.
    - intros Hne. apply coverage_quotient. rewrite L.
      destruct reqs; [congruence | discriminate].
    - intros ->. apply coverage_no_reqs. exact L. }
  split; [exact G|]. split; [|split; reflexivity].
  intros ingredients name data H.
  destruct (G _ _ _ _ H) as (reqs & Hin & _ & Hq & _).
  apply Hq.
  exact (proj1 (Forall_forall _ _) recipes_nonempty _ Hin).
Qed.

Lemma coverage_ratio_witness :
  In ("Omelette", MatchData ["eggs"; "milk"; "butter"] ["cheese"])
     (match_recipes ["egg"; "milk"; "butter"]) /\
  (coverage (MatchData ["eggs"; "milk"; "butter"] ["cheese"]) ==
   inject_Z 3 / inject_Z 4)%Q.
Proof.
  assert (H : In ("Omelette", MatchData ["eggs"; "milk"; "butter"] ["cheese"])
                 (match_recipes ["egg"; "milk"; "butter"]))
    by (vm_compute; tauto).
  split; [exact H|].
  exact (proj1 (proj2 coverage_ratio) ["egg"; "milk"; "butter"] "Omelette" _ H).
Defined.

Lemma normalized_inputs_In (l : list string) (x : string) :
  In x (normalized_inputs l) <->
  exists i, In i l /\ i <> "" /\ x = normalize_str i.
Proof.
  unfold normalized_inputs. rewrite in_map_iff. split.
  - intros (i & <- & Hi). apply filter_In in Hi as [Hi Hne].
    exists i. repeat split; [exact Hi|].
    intros ->. discriminate.
  - intros (i & Hi & Hne & ->). exists i. split; [reflexivity|].
    apply filter_In. split; [exact Hi|].
    apply negb_true_iff, String.eqb_neq. exact Hne.
Qed.

Lemma match_recipes_ext (l1 l2 : list string) :
  (forall x, In x (normalized_inputs l1) <-> In x (normalized_inputs l2)) ->
  match_recipes l1 = match_recipes l2.
Proof.
  intros H. unfold match_recipes. apply match_catalog_ext.
  intros x. rewrite !mem_of_list. now apply mem_ext.
Qed.

(** C10: [match_recipes] depends on its input only through the set of the
    normal forms of the non-empty entries: inputs with the same set give
    the same result, so order, repetition and empty entries do not count. *)
Theorem match_recipes_set_only :
  (forall l1 l2,
     (forall x, In x (normalized_inputs l1) <-> In x (normalized_inputs l2)) ->
     match_recipes l1 = match_recipes l2) /\
  (forall l1 l2, Permutation l1 l2 -> match_recipes l1 = match_recipes l2) /\
  (forall x l, In x l -> match_recipes (x :: l) = match_recipes l) /\
  (forall l1 l2, match_recipes (l1 ++ "" :: l2) = match_recipes (l1 ++ l2)).
Proof.
  split; [exact match_recipes_ext|]. split; [|split].
  - intros l1 l2 P. apply match_recipes_ext. intros x.
    rewrite !normalized_inputs_In.
    split; intros (i & Hi & R); exists i; split; try exact R.
    + now apply (Permutation_in _ P).
    + now apply (Permutation_in _ (Permutation_sym P)).
  - intros x l Hx. apply match_recipes_ext. intros y.
    rewrite !normalized_inputs_In.
    split; intros (i & Hi & R); exists i; split; try exact R.
    + destruct Hi as [<- | Hi]; assumption.
    + now right.
  - intros l1 l2. apply match_recipes_ext. intros y.
    rewrite !normalized_inputs_In.
    split; intros (i & Hi & Hne & R); exists i; (split; [|now split]).
    + apply in_app_or in Hi as [Hi | [<- | Hi]];
        [apply in_or_app; now left | congruence | apply in_or_app; now right].
    + apply in_app_or in Hi as [Hi | Hi]; apply in_or_app;
        [now left | right; now right].
Qed.

Lemma match_recipes_set_only_witness :
  (forall x, In x (normalized_inputs ["Eggs"; ""; "milk"; "egg"]) <->
             In x (normalized_inputs ["milk"; "eggs"])) /\
  match_recipes ["Eggs"; ""; "milk"; "egg"] = match_recipes ["milk"; "eggs"].
Proof.
  assert (H : forall x, In x (normalized_inputs ["Eggs"; ""; "milk"; "egg"]) <->
                        In x (normalized_inputs ["milk"; "eggs"]))
    by (intros x; vm_compute; tauto).
  split; [exact H|].
  exact (proj1 match_recipes_set_only _ _ H).
Defined.

End Matcher.

(* ================================================================== *)
(** ** The order of the ranked output *)

Section Order.

Lemma string_leb_trans (a b c : string) :
  String.leb a b = true -> String.leb b c = true -> String.leb a c = true.
Proof.
  unfold String.leb. revert b c.
  induction a as [|x a IH]; intros [|y b] [|z c]; simpl;
    try reflexivity; try discriminate.
  unfold Ascii.compare.
  destruct (N.compare_spec (N_of_ascii x) (N_of_ascii y)) as [Exy | Lxy | Gxy];
  destruct (N.compare_spec (N_of_ascii y) (N_of_ascii z)) as [Eyz | Lyz | Gyz];
  destruct (N.compare_spec (N_of_ascii x) (N_of_ascii z)) as [Exz | Lxz | Gxz];
  try discriminate; try reflexivity; try (intros; exfalso; lia).
  apply IH.
Qed.

Lemma string_ltb_false_leb (a b : string) :
  String.ltb a b = false <-> String.leb b a = true.
Proof.
  unfold String.ltb, String.leb. rewrite (String.compare_antisym b a).
  destruct (String.compare a b); simpl; split; congruence.
Qed.

Lemma string_ltb_leb (a b : string) :
  String.ltb a b = true -> String.leb a b = true.
Proof.
  unfold String.ltb, String.leb. destruct (String.compare a b); congruence.
Qed.

(** The sort never puts [x] after [y] exactly when [x] ranks before [y]. *)
Lemma key_lt_false_iff (x y : scored_entry) :
  key_lt (sort_key y) (sort_key x) = false <-> ranks_before x y.
Proof.
  unfold key_lt, ranks_before, sort_key; simpl.
  destruct (Qeq_bool (- entry_coverage y) (- entry_coverage x)) eqn:E.
  - apply Qeq_bool_iff in E. rewrite string_ltb_false_leb. split.
    + intros H. right. split; [lra | exact H].
    + intros [H | [_ H]]; [lra | exact H].
  - apply Qeq_bool_neq in E. rewrite negb_false_iff, Qle_bool_iff. split.
    + intros H. left.
      destruct (Qlt_le_dec (entry_coverage y) (entry_coverage x)) as [L | L];
        [exact L | exfalso; apply E; lra].
    + intros [H | [H _]]; [lra | exfalso; apply E; lra].
Qed.

Lemma key_lt_true_ranks (x y : scored_entry) :
  key_lt (sort_key y) (sort_key x) = true -> ranks_before y x.
Proof.
  unfold key_lt, ranks_before, sort_key; simpl.
  destruct (Qeq_bool (- entry_coverage y) (- entry_coverage x)) eqn:E.
  - apply Qeq_bool_iff in E. intros H. right.
    split; [lra | now apply string_ltb_leb].
  - apply Qeq_bool_neq in E. rewrite negb_true_iff. intros H. left.
    destruct (Qlt_le_dec (entry_coverage x) (entry_coverage y)) as [L | L];
      [exact L | exfalso].
    assert (Qle_bool (- entry_coverage x) (- entry_coverage y) = true)
      by (apply Qle_bool_iff; lra).
    congruence.
Qed.

Lemma ranks_before_trans (x y z : scored_entry) :
  ranks_before x y -> ranks_before y z -> ranks_before x z.
Proof.
  unfold ranks_before. intros [H1 | [H1 L1]] [H2 | [H2 L2]].
  - left; lra.
  - left; lra.
  - left; lra.
  - right. split; [lra | exact (string_leb_trans _ _ _ L1 L2)].
Qed.

Lemma insert_by_key_perm (x : scored_entry) (l : list scored_entry) :
  Permutation (insert_by_key x l) (x :: l).
Proof.
  induction l as [|y l IH]; simpl; [reflexivity|].
  destruct (key_lt (sort_key y) (sort_key x)); [|reflexivity].
  rewrite IH. apply perm_swap.
Qed.

Lemma sort_by_key_perm (l : list scored_entry) : Permutation (sort_by_key l) l.
Proof.
  induction l as [|x l IH]; simpl; [reflexivity|].
  rewrite insert_by_key_perm. now constructor.
Qed.

Lemma insert_by_key_sorted (x : scored_entry) (l : list scored_entry) :
  StronglySorted ranks_before l -> StronglySorted ranks_before (insert_by_key x l).
Proof.
  induction l as [|y l IH]; simpl; intros S.
  - repeat constructor.
  - inversion S as [|? ? S' F]; subst.
    destruct (key_lt (sort_key y) (sort_key x)) eqn:E.
    + constructor; [now apply IH|].
      apply Forall_forall. intros z Hz.
      apply (Permutation_in _ (insert_by_key_perm x l)) in Hz.
      destruct Hz as [<- | Hz].
      * now apply key_lt_true_ranks.
      * exact (proj1 (Forall_forall _ _) F z Hz).
    + apply key_lt_false_iff in E. constructor; [exact S|].
      constructor; [exact E|].
      apply Forall_forall. intros z Hz.
      apply (ranks_before_trans x y z E).
      exact (proj1 (Forall_forall _ _) F z Hz).
Qed.

Lemma sort_by_key_sorted (l : list scored_entry) :
  StronglySorted ranks_before (sort_by_key l).
Proof.
  induction l as [|x l IH]; simpl; [constructor|].
  now apply insert_by_key_sorted.
Qed.

End Order.

(* ================================================================== *)
(** ** Ranking *)

Section Ranking.

Lemma score_from (results : PyDict.dict match_data) (acc : list scored_entry) :
  fold_left
    (fun scored item =>
       let h := List.length (have (snd item)) in
       if 0 <? h then scored ++ [(fst item, snd item, coverage (snd item))]
       else scored)
    results acc =
  acc ++ List.map (fun item => (fst item, snd item, coverage (snd item)))
           (filter (fun item => 0 <? List.length (have (snd item))) results).
Proof.
  revert acc; induction results as [|item results IH]; intros acc; simpl.
  - now rewrite app_nil_r.
  - rewrite IH. destruct (0 <? List.length (have (snd item))); simpl;
      now rewrite <- ?app_assoc.
Qed.

(** The scoring loop keeps the items with [have > 0], in their order. *)
Lemma score_filter (results : PyDict.dict match_data) :
  score results =
  List.map (fun item => (fst item, snd item, coverage (snd item)))
    (filter (fun item => 0 <? List.length (have (snd item))) results).
Proof. unfold score. now rewrite score_from. Qed.

Lemma rank_In (results : PyDict.dict match_data) (e : scored_entry) :
  In e (rank results) <->
  exists name data,
    In (name, data) results /\ 0 < List.length (have data) /\
    e = (name, data, coverage data).
Proof.
  unfold rank. split.
  - intros H. apply (Permutation_in _ (sort_by_key_perm _)) in H.
    rewrite score_filter in H. apply in_map_iff in H as ([n d] & <- & H).
    apply filter_In in H as [H L]. apply Nat.ltb_lt in L.
    now exists n, d.
  - intros (n & d & H & L & ->).
    apply (Permutation_in _ (Permutation_sym (sort_by_key_perm _))).
    rewrite score_filter. apply in_map_iff. exists (n, d). split; [reflexivity|].
    apply filter_In. split; [exact H | now apply Nat.ltb_lt].
Qed.

Lemma match_recipes_keys (ingredients : list string) :
  PyDict.keys (match_recipes ingredients) = PyDict.keys recipes.
Proof.
  rewrite match_recipes_map. unfold PyDict.keys. now rewrite List.map_map.
Qed.

(** C2: the ranked output is a rearrangement of the scored items with
    [have > 0], a zero-match recipe is a key of the match result with
    coverage 0 but no name of the ranked output, and the output is ordered
    by coverage descending, then by lower-cased name ascending. *)
Theorem rank_filters_and_sorts :
  (forall results,
     Permutation (rank results)
       (List.map (fun item => (fst item, snd item, coverage (snd item)))
          (filter (fun item => 0 <? List.length (have (snd item))) results)) /\
     StronglySorted ranks_before (rank results)) /\
  (forall ingredients name data,
     PyDict.lookup (match_recipes ingredients) name = Some data ->
     have data = [] ->
     In name (PyDict.keys (match_recipes ingredients)) /\
     (coverage data == 0)%Q /\
     ~ In name (List.map entry_name (rank (match_recipes ingredients)))) /\
  List.map (fun e => (entry_name e, entry_coverage e))
    (rank [ ("Pizza", MatchData ["tomato"; "cheese"; "olive oil"] ["dough"]);
            ("Sandwich", MatchData ["cheese"; "lettuce"; "tomato"] ["bread"]);
            ("Omelette", MatchData ["eggs"; "milk"; "cheese"; "butter"] []) ]) =
    [ ("Omelette", (4 # 4)%Q); ("Pizza", (3 # 4)%Q); ("Sandwich", (3 # 4)%Q) ] /\
  List.map entry_name
    (sorted_matches
       ["Eggs"; "milk"; "cheese"; "butter"; "Tomatoes"; "olive_oil"; "lettuce"]) =
    [ "Omelette"; "Scrambled Eggs"; "Mac and Cheese"; "Pizza"; "Salad";
      "Sandwich"; "Grilled Cheese"; "Burger"; "Tacos"; "Veggie Wrap";
      "French Toast"; "Pancakes"; "Tomato Pasta"; "Quesadilla"; "Guacamole";
      "Smoothie"; "Curry"; "Fried Rice" ].
Proof.
  split; [|split; [|split; reflexivity]].
  - intros results. split.
    + unfold rank. rewrite <- score_filter. apply sort_by_key_perm.
    + apply sort_by_key_sorted.
  - intros ingredients name data Hl He.
    pose proof (lookup_Some_In _ _ _ Hl) as Hin.
    split; [|split].
    + change name with (fst (name, data)). now apply in_map.
    + unfold coverage. rewrite He. simpl.
      destruct (List.length (missing data)); reflexivity.
    + intros H. apply in_map_iff in H as (e & <- & H).
      apply rank_In in H as (n & d & Hd & L & ->).
      change (entry_name (n, d, coverage d)) with n in *.
      apply lookup_In_unique in Hd.
      * rewrite Hd in Hl. injection Hl as ->. rewrite He in L. simpl in L. lia.
      * rewrite match_recipes_keys. exact recipes_names_distinct.
Qed.

Lemma rank_filters_and_sorts_witness :
  PyDict.lookup (match_recipes ["egg"; "milk"; "butter"]) "Pizza" =
    Some (MatchData [] ["dough"; "tomato"; "cheese"; "olive oil"]) /\
  In "Pizza" (PyDict.keys (match_recipes ["egg"; "milk"; "butter"])) /\
  (coverage (MatchData [] ["dough"; "tomato"; "cheese"; "olive oil"]) == 0)%Q /\
  ~ In "Pizza"
      (List.map entry_name (rank (match_recipes ["egg"; "milk"; "butter"]))).
Proof.
  split; [reflexivity|].
  apply (proj1 (proj2 rank_filters_and_sorts) ["egg"; "milk"; "butter"] "Pizza");
    reflexivity.
Defined.

(** C9: the ranked output is a function of the ingredient sequence alone.
    Whatever arrangement the set built by [match_recipes] takes, matching
    and ranking on it give the output computed from [match_recipes]. *)
Theorem ranking_deterministic (ingredients : list string) (s1 s2 : PySet.t) :
  PySet.arranges (normalized_inputs ingredients) s1 ->
  PySet.arranges (normalized_inputs ingredients) s2 ->
  rank (match_catalog recipes s1) = rank (match_catalog recipes s2) /\
  rank (match_catalog recipes s1) = rank (match_recipes ingredients).
Proof.
  intros [_ H1] [_ H2].
  destruct (of_list_arranges (normalized_inputs ingredients)) as [_ H0].
  unfold match_recipes. split; f_equal; apply match_catalog_ext, mem_ext;
    intros x; rewrite H1; [now rewrite H2 | now rewrite H0].
Qed.

Lemma ranking_deterministic_witness :
  PySet.arranges (normalized_inputs ["Milk"; "eggs"; "milk"]) ["milk"; "egg"] /\
  PySet.arranges (normalized_inputs ["Milk"; "eggs"; "milk"]) ["egg"; "milk"] /\
  rank (match_catalog recipes ["milk"; "egg"]) =
  rank (match_catalog recipes ["egg"; "milk"]) /\
  rank (match_catalog recipes ["milk"; "egg"]) =
  rank (match_recipes ["Milk"; "eggs"; "milk"]).
Proof.
  assert (A1 : PySet.arranges (normalized_inputs ["Milk"; "eggs"; "milk"])
                 ["milk"; "egg"]).
  { split.
    - repeat constructor; simpl; intuition discriminate.
    - intros x. vm_compute. tauto. }
  assert (A2 : PySet.arranges (normalized_inputs ["Milk"; "eggs"; "milk"])
                 ["egg"; "milk"]).
  { split.
    - repeat constructor; simpl; intuition discriminate.
    - intros x. vm_compute. tauto. }
  split; [exact A1|]. split; [exact A2|].
  exact (ranking_deterministic ["Milk"; "eggs"; "milk"] _ _ A1 A2).
Defined.

End Ranking.
